(** * SIL dataflow diagnostics

    A shallow embedding of [lib/SIL/Passes/DataflowDiagnostics.cpp]: the pass
    that walks every instruction of a SIL module and reports a missing return,
    a non-exhaustive switch and a return from a no-return function.

    The C++ code emits through [Context.Diags.diagnose] and may stop at an
    [assert]; here the diagnostic engine is an explicit state (the list of
    diagnostics emitted so far) threaded through a small state-and-failure
    monad. *)

From Stdlib Require Import List String NArith Bool Permutation Arith Lia.
Import ListNotations.

Set Implicit Arguments.

(* ===================================================================== *)
(** ** The AST facts the pass reads *)
(* ===================================================================== *)

Module AST.

(** A [SourceLoc] is a position in a source buffer, or invalid. *)
Definition SourceLoc := option N.

(** Modelled from the spec: the AST type declarations ([Type], [TypeBase],
    [AnyFunctionType]) are not part of the source at hand.  A type is the
    empty tuple (void), some other tuple, a nominal type or a function
    type; a function type carries its no-return attribute. *)
#[warnings="-register-all"]
Inductive TypeBase : Type :=
| TupleType (elements : list TypeBase)
| NominalType (name : string)
| FunctionType (input result : TypeBase) (noReturn : bool).

(** [Type] in the C++ code is a nullable handle to a [TypeBase]. *)
Definition Type_ := option TypeBase.

Definition isVoid (t : TypeBase) : bool :=
  match t with
  | TupleType [] => true
  | _ => false
  end.

Record AnyFunctionType := mkAnyFunctionType {
  getInput : TypeBase;
  getResult : TypeBase;
  isNoReturn : bool
}.

(** [T->castTo<AnyFunctionType>()], with the null result the code tests
    for standing for a type that is not a function type. *)
Definition castTo_AnyFunctionType (t : TypeBase) : option AnyFunctionType :=
  match t with
  | FunctionType i r nr => Some (mkAnyFunctionType i r nr)
  | _ => None
  end.

(** A function expression: [getResultType] and [getType] are what
    [FExpr->getResultType(Context)] and [FExpr->getType()] return;
    [funcEnd] is the end of its source range. *)
Record FuncExpr := mkFuncExpr {
  getResultType : TypeBase;
  getType : TypeBase;
  funcEnd : SourceLoc
}.

Record SwitchStmt := mkSwitchStmt {
  switchEnd : SourceLoc
}.

(** The syntax-tree nodes a SIL location may point at.  Everything that is
    neither a [FuncExpr] nor a [SwitchStmt] (closures, other expressions,
    statements, declarations) is an [OtherNode]. *)
Inductive ASTNode : Type :=
| FuncExprNode (FExpr : FuncExpr)
| SwitchStmtNode (SS : SwitchStmt)
| OtherNode (nodeEnd : SourceLoc).

Definition getEndLoc (n : ASTNode) : SourceLoc :=
  match n with
  | FuncExprNode FExpr => funcEnd FExpr
  | SwitchStmtNode SS => switchEnd SS
  | OtherNode e => e
  end.

End AST.
Import AST.

(* ===================================================================== *)
(** ** SIL: locations, instructions, blocks, functions, modules *)
(* ===================================================================== *)

Module SIL.

(** A [SILLocation] wraps a pointer to an AST node; it is null for
    instructions made by SIL passes. *)
Definition SILLocation := option ASTNode.

Definition isNull (L : SILLocation) : bool :=
  match L with
  | None => true
  | Some _ => false
  end.

(** [L.getAs<FuncExpr>()] *)
Definition getAs_FuncExpr (L : SILLocation) : option FuncExpr :=
  match L with
  | Some (FuncExprNode FExpr) => Some FExpr
  | _ => None
  end.

(** [L.is<FuncExpr>()] *)
Definition is_FuncExpr (L : SILLocation) : bool :=
  match L with
  | Some (FuncExprNode _) => true
  | _ => false
  end.

(** [L.is<SwitchStmt>()] *)
Definition is_SwitchStmt (L : SILLocation) : bool :=
  match L with
  | Some (SwitchStmtNode _) => true
  | _ => false
  end.

(** [L.getEndSourceLoc()]; a null location has no valid source position. *)
Definition getEndSourceLoc (L : SILLocation) : SourceLoc :=
  match L with
  | Some n => getEndLoc n
  | None => None
  end.

Definition SILValue := nat.

(** The instruction kinds the pass tells apart ([dyn_cast<UnreachableInst>],
    [dyn_cast<ReturnInst>]); every other kind is an [OtherInst]. *)
Inductive SILInstruction : Type :=
| UnreachableInst (Loc : SILLocation)
| ReturnInst (Loc : SILLocation) (Operand : SILValue)
| OtherInst (Loc : SILLocation).

Definition getLoc (I : SILInstruction) : SILLocation :=
  match I with
  | UnreachableInst L => L
  | ReturnInst L _ => L
  | OtherInst L => L
  end.

Definition SILBasicBlock := list SILInstruction.

(** Modelled from the spec: the declaration of [SILFunction] is not part of
    the source at hand.  A function has a declared result type, a no-return
    flag, its basic blocks and the location of the construct that
    introduced it.  The pass reads [getLocation] and the blocks only. *)
Record SILFunction := mkSILFunction {
  getLocation : SILLocation;
  declaredResultType : TypeBase;
  declaredNoReturn : bool;
  getBlocks : list SILBasicBlock
}.

Record SILModule := mkSILModule {
  getFunctions : list SILFunction
}.

End SIL.
Import SIL.

(* ===================================================================== *)
(** ** Diagnostics and the engine *)
(* ===================================================================== *)

Module diag.

(** The three diagnostics of the pass; [missing_return] takes the result
    type as its argument. *)
Inductive Diag : Type :=
| missing_return (ResTy : Type_)
| non_exhaustive_switch
| return_from_noreturn.

End diag.
Import diag.

Record Diagnostic := mkDiagnostic {
  diagLoc : SourceLoc;
  diagID : Diag
}.

(** The state of [Context.Diags]: what was emitted so far, oldest first. *)
Definition DiagnosticEngine := list Diagnostic.

(** What a piece of the pass does to the engine: it finishes with a value and
    a new engine state, or an [assert] stops the compiler. *)
Inductive Outcome (A : Type) : Type :=
| Done (a : A) (Diags : DiagnosticEngine)
| AssertionFailed.
Arguments AssertionFailed {A}.

Definition Pass (A : Type) := DiagnosticEngine -> Outcome A.

Definition ret {A} (a : A) : Pass A := fun Diags => Done a Diags.

Definition bind {A B} (c : Pass A) (k : A -> Pass B) : Pass B :=
  fun Diags =>
    match c Diags with
    | Done a Diags' => k a Diags'
    | AssertionFailed => AssertionFailed
    end.

Declare Scope pass_scope.
Delimit Scope pass_scope with pass.
Notation "c ;; k" := (bind c (fun _ => k))
  (at level 61, right associativity) : pass_scope.
Local Open Scope pass_scope.

(** [assert(b)] *)
Definition assert (b : bool) : Pass unit :=
  fun Diags => if b then Done tt Diags else AssertionFailed.

(** [diagnose(Context, loc, diag, args...)]: forwards to the engine. *)
Definition diagnose (loc : SourceLoc) (d : Diag) : Pass unit :=
  fun Diags => Done tt (Diags ++ [mkDiagnostic loc d]).

(** A range-based [for] loop over a list. *)
Fixpoint forEach {A} (body : A -> Pass unit) (xs : list A) : Pass unit :=
  match xs with
  | [] => ret tt
  | x :: xs' => body x ;; forEach body xs'
  end.

(* ===================================================================== *)
(** ** The pass *)
(* ===================================================================== *)

(** In the C++ code an instruction reaches its function through
    [UI->getParent()->getParent()]; here the enclosing function [F] is
    passed along with the instruction. *)

Definition diagnoseMissingReturn (F : SILFunction) (UI : SILInstruction)
  : Pass unit :=
  let FLoc := getLocation F in
  match getAs_FuncExpr FLoc with
  | Some FExpr =>
      let ResTy : Type_ := Some (getResultType FExpr) in
      if isVoid (getResultType FExpr) then ret tt
      else
        if match castTo_AnyFunctionType (getType FExpr) with
           | Some T => isNoReturn T
           | None => false
           end
        then ret tt
        else
          (* If the function does not return void, issue the diagnostic. *)
          let L := getLoc UI in
          assert (negb (isNull L) && match ResTy with Some _ => true | None => false end) ;;
          diagnose (getEndSourceLoc L) (missing_return ResTy)
  | None =>
      (* Not all closure types have the result type getter. *)
      ret tt
  end.

Definition diagnoseNonExhaustiveSwitch (UI : SILInstruction) : Pass unit :=
  let L := getLoc UI in
  assert (negb (isNull L)) ;;
  diagnose (getEndSourceLoc L) non_exhaustive_switch.

Definition diagnoseUnreachable (F : SILFunction) (I : SILInstruction)
  : Pass unit :=
  match I with
  | UnreachableInst _ =>
      let UI := I in
      let L := getLoc UI in
      (* Invalid location: the instruction was generated by SIL passes. *)
      if isNull L then ret tt
      else if is_FuncExpr L then diagnoseMissingReturn F UI
      else if is_SwitchStmt L then diagnoseNonExhaustiveSwitch UI
      else ret tt
  | _ => ret tt
  end.

Definition diagnoseReturn (F : SILFunction) (I : SILInstruction)
  : Pass unit :=
  match I with
  | ReturnInst _ _ =>
      let RI := I in
      let FLoc := getLocation F in
      match getAs_FuncExpr FLoc with
      | Some FExpr =>
          match castTo_AnyFunctionType (getType FExpr) with
          | Some T =>
              if isNoReturn T then
                let L := getLoc RI in
                if negb (isNull L)
                then diagnose (getEndSourceLoc L) return_from_noreturn
                else ret tt
              else ret tt
          | None => ret tt
          end
      | None => ret tt
      end
  | _ => ret tt
  end.

(** The body of the innermost loop. *)
Definition visitInstruction (F : SILFunction) (I : SILInstruction)
  : Pass unit :=
  diagnoseUnreachable F I ;; diagnoseReturn F I.

Definition emitSILDataflowDiagnostics (M : SILModule) : Pass unit :=
  forEach (fun Fn =>
    forEach (fun BB =>
      forEach (fun I => visitInstruction Fn I) BB)
      (getBlocks Fn))
    (getFunctions M).

(* ===================================================================== *)
(** ** The order in which the loops reach the instructions *)
(* ===================================================================== *)

(** An instruction together with the function it belongs to. *)
Definition Visit : Type := SILFunction * SILInstruction.

Definition instructionsOf (Fn : SILFunction) : list Visit :=
  flat_map (fun BB : SILBasicBlock => map (pair Fn) BB) (getBlocks Fn).

(** The instructions of a module in the order of the three nested loops. *)
Definition instructions (M : SILModule) : list Visit :=
  flat_map instructionsOf (getFunctions M).

(** The loop body run over an arbitrary sequence of instructions. *)
Definition traverse (order : list Visit) : Pass unit :=
  forEach (fun v : Visit => visitInstruction (fst v) (snd v)) order.

(** [c] finishes, and what it does to the engine is to append [ds]. *)
Definition emits (c : Pass unit) (ds : list Diagnostic) : Prop :=
  forall Diags, c Diags = Done tt (Diags ++ ds).

(** During the run of the pass over [M], the instruction [I] of [F] that
    sits between [before] and [after] in the traversal adds exactly [ds] to
    the engine: the run reaches it in some state [D1], leaves it in
    [D1 ++ ds], and goes on from there to the final state of the pass. *)
Definition emitsAt (M : SILModule) (before after : list Visit)
    (F : SILFunction) (I : SILInstruction) (ds : list Diagnostic) : Prop :=
  forall D0, exists D1 Dend,
    traverse before D0 = Done tt D1 /\
    visitInstruction F I D1 = Done tt (D1 ++ ds) /\
    traverse after (D1 ++ ds) = Done tt Dend /\
    emitSILDataflowDiagnostics M D0 = Done tt Dend.

(* ===================================================================== *)
(** ** The decision table of one instruction *)
(* ===================================================================== *)

(** What [diagnoseMissingReturn] adds for an instruction located at [L]. *)
Definition missingReturnTable (F : SILFunction) (L : SILLocation)
  : list Diagnostic :=
  match getAs_FuncExpr (getLocation F) with
  | Some FExpr =>
      if isVoid (getResultType FExpr) then []
      else match castTo_AnyFunctionType (getType FExpr) with
           | Some T =>
               if isNoReturn T then []
               else [mkDiagnostic (getEndSourceLoc L)
                       (missing_return (Some (getResultType FExpr)))]
           | None =>
               [mkDiagnostic (getEndSourceLoc L)
                  (missing_return (Some (getResultType FExpr)))]
           end
  | None => []
  end.

Definition unreachableTable (F : SILFunction) (I : SILInstruction)
  : list Diagnostic :=
  match I with
  | UnreachableInst None => []
  | UnreachableInst (Some (FuncExprNode FE)) =>
      missingReturnTable F (Some (FuncExprNode FE))
  | UnreachableInst (Some (SwitchStmtNode SS)) =>
      [mkDiagnostic (switchEnd SS) non_exhaustive_switch]
  | UnreachableInst (Some (OtherNode _)) => []
  | _ => []
  end.

Definition returnTable (F : SILFunction) (I : SILInstruction)
  : list Diagnostic :=
  match I, getAs_FuncExpr (getLocation F) with
  | ReturnInst (Some n) _, Some FExpr =>
      match castTo_AnyFunctionType (getType FExpr) with
      | Some T =>
          if isNoReturn T
          then [mkDiagnostic (getEndLoc n) return_from_noreturn]
          else []
      | None => []
      end
  | _, _ => []
  end.

Definition diagnosticsFor (v : Visit) : list Diagnostic :=
  unreachableTable (fst v) (snd v) ++ returnTable (fst v) (snd v).

(** A function whose location is a [FuncExpr] takes its declared result
    type and its no-return flag from that expression. *)
Definition declaredByFuncExpr (F : SILFunction) : Prop :=
  forall FExpr, getAs_FuncExpr (getLocation F) = Some FExpr ->
    getResultType FExpr = declaredResultType F /\
    exists T, castTo_AnyFunctionType (getType FExpr) = Some T /\
              isNoReturn T = declaredNoReturn F.

Definition isMissingReturn (d : Diagnostic) : bool :=
  match diagID d with
  | missing_return _ => true
  | _ => false
  end.

Definition isReturnFromNoReturn (d : Diagnostic) : bool :=
  match diagID d with
  | return_from_noreturn => true
  | _ => false
  end.

(** The function's own location is a [FuncExpr] whose function type is
    no-return: the test [diagnoseReturn] makes before it looks at the
    return instruction. *)
Definition noReturnFuncExpr (F : SILFunction) : Prop :=
  exists FExpr T,
    getAs_FuncExpr (getLocation F) = Some FExpr /\
    castTo_AnyFunctionType (getType FExpr) = Some T /\
    isNoReturn T = true.

(* ===================================================================== *)
(** ** Two readings that the code does not follow *)
(* ===================================================================== *)

(** [MissingReturn] for every function with a non-void declared result type
    that is not no-return, whatever the function's own location is. *)
Definition MissingReturn_whatever_the_function : Prop :=
  forall M F L before after,
    declaredByFuncExpr F ->
    isVoid (declaredResultType F) = false ->
    declaredNoReturn F = false ->
    is_FuncExpr L = true ->
    instructions M = before ++ (F, UnreachableInst L) :: after ->
    emitsAt M before after F (UnreachableInst L)
      [mkDiagnostic (getEndSourceLoc L)
         (missing_return (Some (declaredResultType F)))].

(** [ReturnFromNoReturn] exactly when the function is declared no-return and
    the return has a location, whatever the function's own location is. *)
Definition ReturnFromNoReturn_whatever_the_function : Prop :=
  forall M F L v before after,
    declaredByFuncExpr F ->
    instructions M = before ++ (F, ReturnInst L v) :: after ->
    exists ds, emitsAt M before after F (ReturnInst L v) ds /\
      (declaredNoReturn F = true /\ isNull L = false <->
       ds = [mkDiagnostic (getEndSourceLoc L) return_from_noreturn]).

(* ===================================================================== *)
(** ** Sample modules *)
(* ===================================================================== *)

Module Samples.

Definition Int : TypeBase := NominalType "Int".
Definition Void : TypeBase := TupleType [].

(** [func f() -> Int], [func g() -> ()], [@noreturn func h() -> Int]. *)
Definition intFunc : FuncExpr :=
  mkFuncExpr Int (FunctionType Void Int false) (Some 40%N).
Definition voidFunc : FuncExpr :=
  mkFuncExpr Void (FunctionType Void Void false) (Some 55%N).
Definition noReturnFunc : FuncExpr :=
  mkFuncExpr Int (FunctionType Void Int true) (Some 70%N).

Definition atIntFunc : SILLocation := Some (FuncExprNode intFunc).
Definition atVoidFunc : SILLocation := Some (FuncExprNode voidFunc).
Definition atNoReturnFunc : SILLocation := Some (FuncExprNode noReturnFunc).
Definition atSwitch : SILLocation := Some (SwitchStmtNode (mkSwitchStmt (Some 33%N))).
Definition atClosure : SILLocation := Some (OtherNode (Some 90%N)).
Definition atReturnStmt : SILLocation := Some (OtherNode (Some 62%N)).

(** [f] falls off its end after a switch that misses a case. *)
Definition fnInt : SILFunction :=
  mkSILFunction atIntFunc Int false
    [[OtherInst atSwitch; UnreachableInst atSwitch];
     [OtherInst None; UnreachableInst atIntFunc];
     [UnreachableInst None]].

Definition fnVoid : SILFunction :=
  mkSILFunction atVoidFunc Void false
    [[UnreachableInst atVoidFunc]; [ReturnInst atReturnStmt 0]].

(** [h] is no-return, with a source return, a synthetic return and the
    unreachable at its end. *)
Definition fnNoReturn : SILFunction :=
  mkSILFunction atNoReturnFunc Int true
    [[ReturnInst atReturnStmt 1];
     [ReturnInst None 2];
     [UnreachableInst atNoReturnFunc]].

(** A closure returning [Int]: its location is not a [FuncExpr]. *)
Definition fnClosure : SILFunction :=
  mkSILFunction atClosure Int false
    [[UnreachableInst atIntFunc]; [UnreachableInst atClosure]].

(** A no-return closure with a source return. *)
Definition fnNoReturnClosure : SILFunction :=
  mkSILFunction atClosure Int true [[ReturnInst atReturnStmt 3]].

Definition sampleModule : SILModule :=
  mkSILModule [fnInt; fnVoid; fnNoReturn; fnClosure; fnNoReturnClosure].

Definition closureModule : SILModule := mkSILModule [fnClosure].

Definition noReturnClosureModule : SILModule :=
  mkSILModule [fnNoReturnClosure].

(** The instructions of [sampleModule], last function first. *)
Definition reversedOrder : list Visit := rev (instructions sampleModule).

End Samples.

(* ===================================================================== *)
(** ** What the tests of the pass look at *)
(* ===================================================================== *)

(** The tests [diagnoseMissingReturn] makes on the function before it
    reaches its [assert]: the function's location is a [FuncExpr], the
    result type is not void and the function type is not no-return. *)
Definition missingReturnApplies (F : SILFunction) : bool :=
  match getAs_FuncExpr (getLocation F) with
  | Some FExpr =>
      negb (isVoid (getResultType FExpr)) &&
      negb match castTo_AnyFunctionType (getType FExpr) with
           | Some T => isNoReturn T
           | None => false
           end
  | None => false
  end.

(** The tests [diagnoseReturn] makes on the function. *)
Definition isNoReturnFuncExpr (F : SILFunction) : bool :=
  match getAs_FuncExpr (getLocation F) with
  | Some FExpr =>
      match castTo_AnyFunctionType (getType FExpr) with
      | Some T => isNoReturn T
      | None => false
      end
  | None => false
  end.

(** An [Unreachable] or a [Return] with a location: the only instructions
    for which the pass can reach a call of [diagnose]. *)
Definition mayDiagnose (v : Visit) : bool :=
  match snd v with
  | UnreachableInst L => negb (isNull L)
  | ReturnInst L _ => negb (isNull L)
  | OtherInst _ => false
  end.

Definition isSwitchUnreachable (v : Visit) : bool :=
  match snd v with
  | UnreachableInst L => is_SwitchStmt L
  | _ => false
  end.

Definition isFuncExprUnreachable (v : Visit) : bool :=
  match snd v with
  | UnreachableInst L => is_FuncExpr L && missingReturnApplies (fst v)
  | _ => false
  end.

Definition isLocatedNoReturnReturn (v : Visit) : bool :=
  match snd v with
  | ReturnInst L _ => negb (isNull L) && isNoReturnFuncExpr (fst v)
  | _ => false
  end.

Definition isNonExhaustiveSwitch (d : Diagnostic) : bool :=
  match diagID d with
  | non_exhaustive_switch => true
  | _ => false
  end.

(** Two functions the pass cannot tell apart: the same location and the
    same instructions in the same order, however they are cut into blocks
    and whatever else the functions carry. *)
Definition sameBody (F F' : SILFunction) : Prop :=
  getLocation F = getLocation F' /\
  List.concat (getBlocks F) = List.concat (getBlocks F').

Module EdgeSamples.

Import Samples.

(** A local function returning nothing whose source range ends where the
    range of [intFunc] ends. *)
Definition localVoidFunc : FuncExpr :=
  mkFuncExpr Void (FunctionType Void Void false) (Some 40%N).

(** [fnInt] with its three blocks merged and other declared facts. *)
Definition fnIntMerged : SILFunction :=
  mkSILFunction atIntFunc Void true
    [[OtherInst atSwitch; UnreachableInst atSwitch;
      OtherInst None; UnreachableInst atIntFunc;
      UnreachableInst None]].

(** Only synthetic terminators and instructions of other kinds. *)
Definition quietModule : SILModule :=
  mkSILModule
    [mkSILFunction atNoReturnFunc Int true
       [[OtherInst atSwitch; UnreachableInst None]; [];
        [OtherInst atReturnStmt; ReturnInst None 0]];
     mkSILFunction atIntFunc Int false []].

End EdgeSamples.

(* ===================================================================== *)
(** ** How the monad and the loops compose *)
(* ===================================================================== *)

Section Emits.

Lemma emits_ret : emits (ret tt) [].
Proof. intros D. unfold ret. now rewrite app_nil_r. Qed.

Lemma emits_diagnose loc d : emits (diagnose loc d) [mkDiagnostic loc d].
Proof. intros D. reflexivity. Qed.

Lemma emits_assert_true : emits (assert true) [].
Proof. intros D. unfold assert. now rewrite app_nil_r. Qed.

Lemma emits_seq (c k : Pass unit) ds ds' :
  emits c ds -> emits k ds' -> emits (c ;; k) (ds ++ ds').
Proof.
  intros Hc Hk D. unfold bind. rewrite Hc, Hk. now rewrite app_assoc.
Qed.

Lemma emits_forEach {A} (body : A -> Pass unit) (f : A -> list Diagnostic) :
  (forall x, emits (body x) (f x)) ->
  forall xs, emits (forEach body xs) (flat_map f xs).
Proof.
  intros Hbody xs. induction xs as [|x xs IH]; simpl.
  - apply emits_ret.
  - apply emits_seq; [apply Hbody | exact IH].
Qed.

Lemma emits_fun (c : Pass unit) ds ds' : emits c ds -> emits c ds' -> ds = ds'.
Proof.
  intros H H'. specialize (H []). specialize (H' []).
  rewrite H in H'. now inversion H'.
Qed.

Lemma forEach_app {A} (body : A -> Pass unit) xs ys D :
  forEach body (xs ++ ys) D = (forEach body xs ;; forEach body ys) D.
Proof.
  revert D. induction xs as [|x xs IH]; intros D; simpl.
  - reflexivity.
  - unfold bind in *. destruct (body x D) as [[] D'|]; [apply IH | reflexivity].
Qed.

Lemma forEach_flat_map {A B} (body : B -> Pass unit) (g : A -> list B) xs D :
  forEach (fun x => forEach body (g x)) xs D = forEach body (flat_map g xs) D.
Proof.
  revert D. induction xs as [|x xs IH]; intros D; simpl.
  - reflexivity.
  - rewrite forEach_app. unfold bind.
    destruct (forEach body (g x) D) as [[] D'|]; [apply IH | reflexivity].
Qed.

Lemma forEach_map {A B} (body : B -> Pass unit) (g : A -> B) xs D :
  forEach (fun x => body (g x)) xs D = forEach body (map g xs) D.
Proof.
  revert D. induction xs as [|x xs IH]; intros D; simpl.
  - reflexivity.
  - unfold bind. destruct (body (g x) D) as [[] D'|]; [apply IH | reflexivity].
Qed.

Lemma forEach_ext {A} (body body' : A -> Pass unit) xs D :
  (forall x D', body x D' = body' x D') ->
  forEach body xs D = forEach body' xs D.
Proof.
  intros E. revert D. induction xs as [|x xs IH]; intros D; simpl.
  - reflexivity.
  - unfold bind. rewrite E. destruct (body' x D) as [[] D'|]; [apply IH | reflexivity].
Qed.

End Emits.

(** The three nested loops visit [instructions M], in that order. *)
Lemma emit_is_traverse M D :
  emitSILDataflowDiagnostics M D = traverse (instructions M) D.
Proof.
  unfold emitSILDataflowDiagnostics, traverse, instructions.
  rewrite <- forEach_flat_map. apply forEach_ext. intros Fn D'.
  unfold instructionsOf. rewrite <- forEach_flat_map.
  apply forEach_ext. intros BB D''.
  rewrite <- forEach_map. reflexivity.
Qed.

Lemma in_instructions M F I :
  In (F, I) (instructions M) <->
  exists BB, In F (getFunctions M) /\ In BB (getBlocks F) /\ In I BB.
Proof.
  unfold instructions, instructionsOf. rewrite in_flat_map. split.
  - intros (Fn & HF & H). apply in_flat_map in H as (BB & HBB & H).
    apply in_map_iff in H as (I' & E & HI). inversion E; subst.
    exists BB. auto.
  - intros (BB & HF & HBB & HI). exists F. split; [assumption|].
    apply in_flat_map. exists BB. split; [assumption|].
    apply in_map_iff. exists I. auto.
Qed.

(* ===================================================================== *)
(** ** One instruction *)
(* ===================================================================== *)

Lemma diagnoseMissingReturn_emits F UI :
  isNull (getLoc UI) = false ->
  emits (diagnoseMissingReturn F UI) (missingReturnTable F (getLoc UI)).
Proof.
  intros HL. unfold diagnoseMissingReturn, missingReturnTable.
  destruct (getAs_FuncExpr (getLocation F)) as [FExpr|]; [|apply emits_ret].
  destruct (isVoid (getResultType FExpr)); [apply emits_ret|].
  assert (Hemit : emits
            (assert (negb (isNull (getLoc UI)) && true) ;;
             diagnose (getEndSourceLoc (getLoc UI))
               (missing_return (Some (getResultType FExpr))))
            [mkDiagnostic (getEndSourceLoc (getLoc UI))
               (missing_return (Some (getResultType FExpr)))]).
  { rewrite HL. apply (emits_seq emits_assert_true (emits_diagnose _ _)). }
  destruct (castTo_AnyFunctionType (getType FExpr)) as [T|]; [|exact Hemit].
  destruct (isNoReturn T); [apply emits_ret | exact Hemit].
Qed.

Lemma diagnoseUnreachable_emits F I :
  emits (diagnoseUnreachable F I) (unreachableTable F I).
Proof.
  destruct I as [L|L v|L]; try apply emits_ret.
  destruct L as [[FE|SS|e]|]; simpl; try apply emits_ret.
  - apply (diagnoseMissingReturn_emits F (UnreachableInst (Some (FuncExprNode FE)))).
    reflexivity.
  - apply (emits_seq emits_assert_true (emits_diagnose _ _)).
Qed.

Lemma diagnoseReturn_emits F I :
  emits (diagnoseReturn F I) (returnTable F I).
Proof.
  unfold diagnoseReturn, returnTable.
  destruct I as [L|L v|L];
    destruct (getAs_FuncExpr (getLocation F)) as [FExpr|];
    try apply emits_ret.
  - destruct (castTo_AnyFunctionType (getType FExpr)) as [T|];
      [destruct (isNoReturn T)|]; destruct L as [n|]; simpl;
      try apply emits_ret.
    apply emits_diagnose.
  - destruct L; apply emits_ret.
Qed.

Lemma visitInstruction_emits v :
  emits (visitInstruction (fst v) (snd v)) (diagnosticsFor v).
Proof.
  apply emits_seq; [apply diagnoseUnreachable_emits | apply diagnoseReturn_emits].
Qed.

Lemma traverse_emits order :
  emits (traverse order) (flat_map diagnosticsFor order).
Proof. apply emits_forEach. exact visitInstruction_emits. Qed.

Lemma emitSILDataflowDiagnostics_emits M :
  emits (emitSILDataflowDiagnostics M) (flat_map diagnosticsFor (instructions M)).
Proof. intros D. rewrite emit_is_traverse. apply traverse_emits. Qed.

(** Every instruction of the traversal adds its row of the decision table. *)
Lemma traverse_app xs ys D :
  traverse (xs ++ ys) D = (traverse xs ;; traverse ys) D.
Proof. apply forEach_app. Qed.

Lemma traverse_cons F I rest D :
  traverse ((F, I) :: rest) D = (visitInstruction F I ;; traverse rest) D.
Proof. reflexivity. Qed.

Lemma emitsAt_table M before after F I :
  instructions M = before ++ (F, I) :: after ->
  emitsAt M before after F I (diagnosticsFor (F, I)).
Proof.
  intros Hsplit D0.
  pose proof (traverse_emits before D0) as Hbefore.
  pose proof (visitInstruction_emits (F, I)
                (D0 ++ flat_map diagnosticsFor before)) as Hvisit.
  pose proof (traverse_emits after
                ((D0 ++ flat_map diagnosticsFor before)
                 ++ diagnosticsFor (F, I))) as Hafter.
  simpl fst in Hvisit. simpl snd in Hvisit.
  eexists. eexists. split; [exact Hbefore|].
  split; [exact Hvisit|]. split; [exact Hafter|].
  rewrite emit_is_traverse, Hsplit, traverse_app. unfold bind at 1.
  rewrite Hbefore, traverse_cons. unfold bind. rewrite Hvisit. exact Hafter.
Qed.

Lemma emitsAt_fun M before after F I ds ds' :
  emitsAt M before after F I ds -> emitsAt M before after F I ds' -> ds = ds'.
Proof.
  intros H H'. destruct (H []) as (D1 & ? & H1 & H2 & _).
  destruct (H' []) as (D1' & ? & H1' & H2' & _).
  rewrite H1 in H1'. inversion H1'; subst D1'.
  rewrite H2 in H2'. inversion H2' as [E]. now apply app_inv_head in E.
Qed.

(* ===================================================================== *)
(** ** Rows of the decision table *)
(* ===================================================================== *)

Lemma is_FuncExpr_getAs L :
  is_FuncExpr L = true <-> exists FExpr, getAs_FuncExpr L = Some FExpr.
Proof.
  destruct L as [[FE|SS|e]|]; simpl; split;
    try discriminate; try (intros [? ?]; discriminate); eauto.
Qed.

Lemma is_FuncExpr_false_getAs L :
  is_FuncExpr L = false <-> getAs_FuncExpr L = None.
Proof. destruct L as [[FE|SS|e]|]; simpl; split; congruence. Qed.

Lemma returnTable_unreachable F L : returnTable F (UnreachableInst L) = [].
Proof. unfold returnTable. now destruct (getAs_FuncExpr (getLocation F)). Qed.

Lemma unreachableTable_return F L v : unreachableTable F (ReturnInst L v) = [].
Proof. reflexivity. Qed.

Lemma diagnosticsFor_unreachable F L :
  diagnosticsFor (F, UnreachableInst L) = unreachableTable F (UnreachableInst L).
Proof.
  unfold diagnosticsFor. simpl fst. simpl snd.
  now rewrite returnTable_unreachable, app_nil_r.
Qed.

Lemma diagnosticsFor_return F L v :
  diagnosticsFor (F, ReturnInst L v) = returnTable F (ReturnInst L v).
Proof. reflexivity. Qed.

Lemma diagnosticsFor_other F L : diagnosticsFor (F, OtherInst L) = [].
Proof.
  unfold diagnosticsFor, returnTable. simpl.
  now destruct (getAs_FuncExpr (getLocation F)).
Qed.

Lemma unreachableTable_FuncExpr F L :
  is_FuncExpr L = true ->
  unreachableTable F (UnreachableInst L) = missingReturnTable F L.
Proof. destruct L as [[FE|SS|e]|]; simpl; congruence. Qed.

Lemma unreachableTable_SwitchStmt F L :
  is_SwitchStmt L = true ->
  unreachableTable F (UnreachableInst L) =
  [mkDiagnostic (getEndSourceLoc L) non_exhaustive_switch].
Proof. destruct L as [[FE|SS|e]|]; simpl; congruence. Qed.

Lemma unreachableTable_not_FuncExpr F L :
  is_FuncExpr L = false ->
  Forall (fun d => isMissingReturn d = false)
    (unreachableTable F (UnreachableInst L)).
Proof.
  destruct L as [[FE|SS|e]|]; simpl; try discriminate; intros _;
    repeat constructor.
Qed.

(** The two exemptions and the missing [FuncExpr], in one statement. *)
Lemma missingReturnTable_exempt F L :
  (forall FExpr, getAs_FuncExpr (getLocation F) = Some FExpr ->
     isVoid (getResultType FExpr) = true \/
     exists T, castTo_AnyFunctionType (getType FExpr) = Some T /\
               isNoReturn T = true) ->
  missingReturnTable F L = [].
Proof.
  intros H. unfold missingReturnTable.
  destruct (getAs_FuncExpr (getLocation F)) as [FExpr|]; [|reflexivity].
  destruct (H FExpr eq_refl) as [Hv | (T & HT & Hnr)].
  - now rewrite Hv.
  - rewrite HT, Hnr. now destruct (isVoid (getResultType FExpr)).
Qed.

Lemma missingReturnTable_emit F FExpr T L :
  getAs_FuncExpr (getLocation F) = Some FExpr ->
  isVoid (getResultType FExpr) = false ->
  castTo_AnyFunctionType (getType FExpr) = Some T ->
  isNoReturn T = false ->
  missingReturnTable F L =
  [mkDiagnostic (getEndSourceLoc L) (missing_return (Some (getResultType FExpr)))].
Proof.
  intros HF Hv HT Hnr. unfold missingReturnTable. now rewrite HF, Hv, HT, Hnr.
Qed.

(** Whatever [diagnoseMissingReturn] emits is a [missing_return] of the
    non-void result type of the function's own [FuncExpr]. *)
Lemma missingReturnTable_inv F L d :
  In d (missingReturnTable F L) ->
  exists FExpr,
    getAs_FuncExpr (getLocation F) = Some FExpr /\
    isVoid (getResultType FExpr) = false /\
    d = mkDiagnostic (getEndSourceLoc L)
          (missing_return (Some (getResultType FExpr))).
Proof.
  unfold missingReturnTable.
  destruct (getAs_FuncExpr (getLocation F)) as [FExpr|]; [|intros []].
  destruct (isVoid (getResultType FExpr)) eqn:Hv; [intros []|].
  intros Hin. exists FExpr.
  destruct (castTo_AnyFunctionType (getType FExpr)) as [T|];
    [destruct (isNoReturn T); [destruct Hin|]|];
    destruct Hin as [<-|[]]; auto.
Qed.

Lemma diagnosticsFor_missing_return_inv F I d :
  In d (diagnosticsFor (F, I)) -> isMissingReturn d = true ->
  exists L, I = UnreachableInst L /\ is_FuncExpr L = true /\
            In d (missingReturnTable F L).
Proof.
  destruct I as [L|L v|L].
  - rewrite diagnosticsFor_unreachable.
    destruct L as [[FE|SS|e]|]; simpl.
    + intros Hin _. exists (Some (FuncExprNode FE)). auto.
    + intros [<-|[]]. discriminate.
    + intros [].
    + intros [].
  - rewrite diagnosticsFor_return. unfold returnTable.
    destruct L as [n|]; [|now destruct 1].
    destruct (getAs_FuncExpr (getLocation F)) as [FExpr|]; [|intros []].
    destruct (castTo_AnyFunctionType (getType FExpr)) as [T|]; [|intros []].
    destruct (isNoReturn T); [|intros []].
    intros [<-|[]]. discriminate.
  - rewrite diagnosticsFor_other. intros [].
Qed.

(** When [diagnoseReturn] emits, and what. *)
Lemma returnTable_cases F L v :
  (noReturnFuncExpr F /\ isNull L = false /\
   returnTable F (ReturnInst L v) =
   [mkDiagnostic (getEndSourceLoc L) return_from_noreturn]) \/
  (~ (noReturnFuncExpr F /\ isNull L = false) /\
   returnTable F (ReturnInst L v) = []).
Proof.
  unfold returnTable, noReturnFuncExpr.
  destruct L as [n|].
  - destruct (getAs_FuncExpr (getLocation F)) as [FExpr|] eqn:HF.
    + destruct (castTo_AnyFunctionType (getType FExpr)) as [T|] eqn:HT.
      * destruct (isNoReturn T) eqn:Hnr.
        -- left. split; [|split]; [exists FExpr, T; auto | reflexivity..].
        -- right. split; [|reflexivity].
           intros [(FE' & T' & E1 & E2 & E3) _]. congruence.
      * right. split; [|reflexivity].
        intros [(FE' & T' & E1 & E2 & E3) _]. congruence.
    + right. split; [|reflexivity].
      intros [(FE' & T' & E1 & E2 & E3) _]. congruence.
  - right. split; [intros [_ ?]; discriminate|].
    now destruct (getAs_FuncExpr (getLocation F)).
Qed.

Lemma noReturnFuncExpr_declared F :
  declaredByFuncExpr F ->
  (noReturnFuncExpr F <->
   is_FuncExpr (getLocation F) = true /\ declaredNoReturn F = true).
Proof.
  intros Hwf. split.
  - intros (FExpr & T & HF & HT & Hnr). split.
    + apply is_FuncExpr_getAs. eauto.
    + destruct (Hwf FExpr HF) as (_ & T' & HT' & E). congruence.
  - intros [Hloc Hnr]. apply is_FuncExpr_getAs in Hloc as [FExpr HF].
    destruct (Hwf FExpr HF) as (_ & T & HT & E).
    exists FExpr, T. repeat split; congruence.
Qed.

Lemma diagnosticsFor_return_from_noreturn_inv F I d :
  In d (diagnosticsFor (F, I)) -> isReturnFromNoReturn d = true ->
  exists L v, I = ReturnInst L v /\ is_FuncExpr (getLocation F) = true.
Proof.
  destruct I as [L|L v|L].
  - rewrite diagnosticsFor_unreachable.
    destruct L as [[FE|SS|e]|]; simpl.
    + intros Hin. apply missingReturnTable_inv in Hin as (? & _ & _ & ->).
      discriminate.
    + intros [<-|[]]. discriminate.
    + intros [].
    + intros [].
  - rewrite diagnosticsFor_return. intros Hin _. exists L, v. split; [reflexivity|].
    destruct (returnTable_cases F L v) as [((FE & T & HF & _) & _)|[_ E]].
    + apply is_FuncExpr_getAs. eauto.
    + rewrite E in Hin. destruct Hin.
  - rewrite diagnosticsFor_other. intros [].
Qed.

(* ===================================================================== *)
(** ** Runs of the sample modules *)
(* ===================================================================== *)

Import Samples.

Example sampleModule_run :
  emitSILDataflowDiagnostics sampleModule [] =
  Done tt [mkDiagnostic (Some 33%N) non_exhaustive_switch;
           mkDiagnostic (Some 40%N) (missing_return (Some Int));
           mkDiagnostic (Some 62%N) return_from_noreturn].
Proof. reflexivity. Qed.

Example closureModule_run :
  emitSILDataflowDiagnostics closureModule [] = Done tt [].
Proof. reflexivity. Qed.

Example noReturnClosureModule_run :
  emitSILDataflowDiagnostics noReturnClosureModule [] = Done tt [].
Proof. reflexivity. Qed.

(** Called on its own with a null location, [diagnoseMissingReturn] stops at
    its [assert]; the pass never calls it that way. *)
Example diagnoseMissingReturn_null_location :
  diagnoseMissingReturn fnInt (UnreachableInst None) [] = AssertionFailed.
Proof. reflexivity. Qed.

Lemma declaredByFuncExpr_fnInt : declaredByFuncExpr fnInt.
Proof.
  intros FExpr E. inversion E; subst FExpr. split; [reflexivity|].
  eexists. split; reflexivity.
Qed.

Lemma declaredByFuncExpr_fnVoid : declaredByFuncExpr fnVoid.
Proof.
  intros FExpr E. inversion E; subst FExpr. split; [reflexivity|].
  eexists. split; reflexivity.
Qed.

Lemma declaredByFuncExpr_fnNoReturn : declaredByFuncExpr fnNoReturn.
Proof.
  intros FExpr E. inversion E; subst FExpr. split; [reflexivity|].
  eexists. split; reflexivity.
Qed.

Lemma declaredByFuncExpr_no_FuncExpr F :
  getAs_FuncExpr (getLocation F) = None -> declaredByFuncExpr F.
Proof. intros E FExpr E'. congruence. Qed.

(* ===================================================================== *)
(** ** Missing return *)
(* ===================================================================== *)

(** C1 (as amended).  For every function whose own location is a function
    declaration ([FuncExpr]), whose declared result type is not void and
    which is not declared no-return: an [Unreachable] terminator of its body
    with a [FuncExpr] location adds, during the run of the pass over the
    module, exactly one diagnostic, a [missing_return] anchored at the end
    of the terminator's location and carrying the function's declared
    result type. *)
Theorem missing_return_emitted_once M F L before after :
  declaredByFuncExpr F ->
  is_FuncExpr (getLocation F) = true ->
  isVoid (declaredResultType F) = false ->
  declaredNoReturn F = false ->
  is_FuncExpr L = true ->
  instructions M = before ++ (F, UnreachableInst L) :: after ->
  emitsAt M before after F (UnreachableInst L)
    [mkDiagnostic (getEndSourceLoc L)
       (missing_return (Some (declaredResultType F)))].
Proof.
  intros Hwf HFloc Hv Hnr HL Hsplit.
  apply is_FuncExpr_getAs in HFloc as [FExpr HF].
  destruct (Hwf FExpr HF) as (Hres & T & HT & HTnr).
  pose proof (@emitsAt_table _ _ _ _ _ Hsplit) as Hrun.
  rewrite diagnosticsFor_unreachable, (unreachableTable_FuncExpr F L HL) in Hrun.
  rewrite (@missingReturnTable_emit F FExpr T L) in Hrun; try congruence.
  now rewrite Hres in Hrun.
Qed.

Lemma missing_return_emitted_once_witness :
  declaredByFuncExpr fnInt /\
  is_FuncExpr (getLocation fnInt) = true /\
  isVoid (declaredResultType fnInt) = false /\
  declaredNoReturn fnInt = false /\
  is_FuncExpr atIntFunc = true /\
  instructions sampleModule =
    firstn 3 (instructions sampleModule)
    ++ (fnInt, UnreachableInst atIntFunc) :: skipn 4 (instructions sampleModule) /\
  emitsAt sampleModule (firstn 3 (instructions sampleModule))
    (skipn 4 (instructions sampleModule)) fnInt (UnreachableInst atIntFunc)
    [mkDiagnostic (Some 40%N) (missing_return (Some Int))].
Proof.
  repeat (split; [first [exact declaredByFuncExpr_fnInt | reflexivity]|]).
  apply (@missing_return_emitted_once sampleModule fnInt atIntFunc
           (firstn 3 (instructions sampleModule))
           (skipn 4 (instructions sampleModule)));
    first [exact declaredByFuncExpr_fnInt | reflexivity].
Defined.

(** C1 as first stated fails: the closure [fnClosure] has the declared
    result type [Int] and is not no-return, its body has an [Unreachable]
    with a [FuncExpr] location, and the pass emits nothing at all. *)
Lemma closure_missing_return_counterexample :
  declaredByFuncExpr fnClosure /\
  isVoid (declaredResultType fnClosure) = false /\
  declaredNoReturn fnClosure = false /\
  is_FuncExpr atIntFunc = true /\
  instructions closureModule =
    [] ++ (fnClosure, UnreachableInst atIntFunc)
       :: [(fnClosure, UnreachableInst atClosure)] /\
  emitSILDataflowDiagnostics closureModule [] = Done tt [] /\
  ~ MissingReturn_whatever_the_function.
Proof.
  assert (Hwf : declaredByFuncExpr fnClosure)
    by (apply declaredByFuncExpr_no_FuncExpr; reflexivity).
  repeat (split; [first [exact Hwf | reflexivity]|]).
  intros Hclaim.
  specialize (Hclaim closureModule fnClosure atIntFunc []
                [(fnClosure, UnreachableInst atClosure)]
                Hwf eq_refl eq_refl eq_refl eq_refl).
  destruct (Hclaim []) as (D1 & Dend & H1 & H2 & _).
  inversion H1; subst D1. discriminate H2.
Qed.

(** C2.  For every function whose declared result type is void or which is
    declared no-return, no [Unreachable] terminator of its body adds a
    [missing_return] during the run of the pass, whatever the terminator's
    location is. *)
Theorem no_missing_return_when_void_or_noreturn M F L before after :
  declaredByFuncExpr F ->
  isVoid (declaredResultType F) = true \/ declaredNoReturn F = true ->
  instructions M = before ++ (F, UnreachableInst L) :: after ->
  exists ds,
    emitsAt M before after F (UnreachableInst L) ds /\
    Forall (fun d => isMissingReturn d = false) ds.
Proof.
  intros Hwf Hexempt Hsplit.
  exists (diagnosticsFor (F, UnreachableInst L)).
  split; [now apply emitsAt_table|].
  rewrite diagnosticsFor_unreachable.
  destruct (is_FuncExpr L) eqn:HL;
    [|now apply unreachableTable_not_FuncExpr].
  rewrite (unreachableTable_FuncExpr F L HL), missingReturnTable_exempt;
    [constructor|].
  intros FExpr HF. destruct (Hwf FExpr HF) as (Hres & T & HT & HTnr).
  destruct Hexempt as [Hv|Hnr]; [left; congruence | right].
  exists T. split; congruence.
Qed.

Lemma no_missing_return_when_void_or_noreturn_witness :
  declaredByFuncExpr fnNoReturn /\
  (isVoid (declaredResultType fnNoReturn) = true \/
   declaredNoReturn fnNoReturn = true) /\
  exists ds,
    emitsAt sampleModule (firstn 9 (instructions sampleModule))
      (skipn 10 (instructions sampleModule))
      fnNoReturn (UnreachableInst atNoReturnFunc) ds /\
    Forall (fun d => isMissingReturn d = false) ds.
Proof.
  split; [exact declaredByFuncExpr_fnNoReturn|].
  split; [right; reflexivity|].
  apply (@no_missing_return_when_void_or_noreturn sampleModule fnNoReturn
           atNoReturnFunc (firstn 9 (instructions sampleModule))
           (skipn 10 (instructions sampleModule))).
  - exact declaredByFuncExpr_fnNoReturn.
  - right; reflexivity.
  - reflexivity.
Defined.

(** C9.  In a function whose own location is not a function declaration
    ([FuncExpr]), e.g. a closure, no [Unreachable] terminator adds a
    [missing_return] during the run of the pass; one with a [FuncExpr]
    location of its own adds nothing at all. *)
Theorem no_missing_return_without_FuncExpr M F L before after :
  is_FuncExpr (getLocation F) = false ->
  instructions M = before ++ (F, UnreachableInst L) :: after ->
  exists ds,
    emitsAt M before after F (UnreachableInst L) ds /\
    Forall (fun d => isMissingReturn d = false) ds /\
    (is_FuncExpr L = true -> ds = []).
Proof.
  intros HF Hsplit. apply is_FuncExpr_false_getAs in HF.
  exists (diagnosticsFor (F, UnreachableInst L)).
  split; [now apply emitsAt_table|].
  rewrite diagnosticsFor_unreachable.
  assert (Hnone : missingReturnTable F L = []).
  { apply missingReturnTable_exempt. intros FExpr E. congruence. }
  destruct (is_FuncExpr L) eqn:HL.
  - rewrite (unreachableTable_FuncExpr F L HL), Hnone. split; [constructor | auto].
  - split; [now apply unreachableTable_not_FuncExpr | discriminate].
Qed.

Lemma no_missing_return_without_FuncExpr_witness :
  is_FuncExpr (getLocation fnClosure) = false /\
  exists ds,
    emitsAt closureModule [] [(fnClosure, UnreachableInst atClosure)]
      fnClosure (UnreachableInst atIntFunc) ds /\
    Forall (fun d => isMissingReturn d = false) ds /\
    (is_FuncExpr atIntFunc = true -> ds = []).
Proof.
  split; [reflexivity|].
  apply (@no_missing_return_without_FuncExpr closureModule fnClosure atIntFunc
           [] [(fnClosure, UnreachableInst atClosure)]); reflexivity.
Defined.

(* ===================================================================== *)
(** ** Non-exhaustive switch, synthetic and unattributed terminators *)
(* ===================================================================== *)

(** C3.  Every [Unreachable] terminator whose location is a switch
    statement adds, during the run of the pass over the module, exactly one
    diagnostic, a [non_exhaustive_switch] anchored at the end of that
    location; nothing about the enclosing function is asked. *)
Theorem non_exhaustive_switch_emitted_once M F L before after :
  is_SwitchStmt L = true ->
  instructions M = before ++ (F, UnreachableInst L) :: after ->
  emitsAt M before after F (UnreachableInst L)
    [mkDiagnostic (getEndSourceLoc L) non_exhaustive_switch].
Proof.
  intros HL Hsplit.
  pose proof (@emitsAt_table _ _ _ _ _ Hsplit) as Hrun.
  now rewrite diagnosticsFor_unreachable,
    (unreachableTable_SwitchStmt F L HL) in Hrun.
Qed.

Lemma non_exhaustive_switch_emitted_once_witness :
  is_SwitchStmt atSwitch = true /\
  emitsAt sampleModule [(fnInt, OtherInst atSwitch)]
    (skipn 2 (instructions sampleModule)) fnInt (UnreachableInst atSwitch)
    [mkDiagnostic (Some 33%N) non_exhaustive_switch].
Proof.
  split; [reflexivity|].
  apply (@non_exhaustive_switch_emitted_once sampleModule fnInt atSwitch
           [(fnInt, OtherInst atSwitch)] (skipn 2 (instructions sampleModule)));
    reflexivity.
Defined.

(** C5.  An [Unreachable] terminator with a null location adds no
    diagnostic of any kind during the run of the pass. *)
Theorem null_location_unreachable_silent M F before after :
  instructions M = before ++ (F, UnreachableInst None) :: after ->
  emitsAt M before after F (UnreachableInst None) [].
Proof.
  intros Hsplit.
  pose proof (@emitsAt_table _ _ _ _ _ Hsplit) as Hrun.
  now rewrite diagnosticsFor_unreachable in Hrun.
Qed.

Lemma null_location_unreachable_silent_witness :
  emitsAt sampleModule (firstn 4 (instructions sampleModule))
    (skipn 5 (instructions sampleModule)) fnInt (UnreachableInst None) [].
Proof.
  apply (@null_location_unreachable_silent sampleModule fnInt
           (firstn 4 (instructions sampleModule))
           (skipn 5 (instructions sampleModule))).
  reflexivity.
Defined.

(** C6.  An [Unreachable] terminator whose location is not null and is
    neither a [FuncExpr] nor a [SwitchStmt] adds no diagnostic during the
    run of the pass. *)
Theorem unknown_location_unreachable_silent M F L before after :
  isNull L = false ->
  is_FuncExpr L = false ->
  is_SwitchStmt L = false ->
  instructions M = before ++ (F, UnreachableInst L) :: after ->
  emitsAt M before after F (UnreachableInst L) [].
Proof.
  intros Hnull HFE HSS Hsplit.
  pose proof (@emitsAt_table _ _ _ _ _ Hsplit) as Hrun.
  rewrite diagnosticsFor_unreachable in Hrun.
  destruct L as [[FE|SS|e]|]; try discriminate. exact Hrun.
Qed.

Lemma unknown_location_unreachable_silent_witness :
  isNull atClosure = false /\
  is_FuncExpr atClosure = false /\
  is_SwitchStmt atClosure = false /\
  emitsAt closureModule [(fnClosure, UnreachableInst atIntFunc)] []
    fnClosure (UnreachableInst atClosure) [].
Proof.
  repeat (split; [reflexivity|]).
  apply (@unknown_location_unreachable_silent closureModule fnClosure atClosure
           [(fnClosure, UnreachableInst atIntFunc)] []); reflexivity.
Defined.

(* ===================================================================== *)
(** ** Return from a no-return function *)
(* ===================================================================== *)

(** C4 (as amended).  A [Return] instruction adds a [return_from_noreturn]
    during the run of the pass if and only if its function's own location is
    a function declaration ([FuncExpr]), the function is declared no-return
    and the return's own location is not null.  Such a return adds exactly
    that one diagnostic, anchored at the end of its location; every other
    return, a null-location one in particular, adds nothing. *)
Theorem return_from_noreturn_iff M F L v before after :
  declaredByFuncExpr F ->
  instructions M = before ++ (F, ReturnInst L v) :: after ->
  exists ds,
    emitsAt M before after F (ReturnInst L v) ds /\
    (is_FuncExpr (getLocation F) = true /\ declaredNoReturn F = true /\
     isNull L = false <->
     ds = [mkDiagnostic (getEndSourceLoc L) return_from_noreturn]) /\
    (ds = [mkDiagnostic (getEndSourceLoc L) return_from_noreturn] \/ ds = []) /\
    (isNull L = true -> ds = []).
Proof.
  intros Hwf Hsplit.
  exists (diagnosticsFor (F, ReturnInst L v)).
  split; [now apply emitsAt_table|].
  rewrite diagnosticsFor_return.
  pose proof (noReturnFuncExpr_declared Hwf) as Hiff.
  destruct (returnTable_cases F L v) as [(Hnr & HL & ->)|(Hno & ->)].
  - apply Hiff in Hnr as [HFloc Hdecl]. repeat split; auto.
    rewrite HL. discriminate.
  - repeat split; auto; try discriminate.
    intros (HFloc & Hdecl & HL). exfalso. apply Hno. split; [|exact HL].
    apply Hiff. auto.
Qed.

Lemma return_from_noreturn_iff_witness :
  declaredByFuncExpr fnNoReturn /\
  exists ds,
    emitsAt sampleModule (firstn 7 (instructions sampleModule))
      (skipn 8 (instructions sampleModule))
      fnNoReturn (ReturnInst atReturnStmt 1) ds /\
    (is_FuncExpr (getLocation fnNoReturn) = true /\
     declaredNoReturn fnNoReturn = true /\ isNull atReturnStmt = false <->
     ds = [mkDiagnostic (Some 62%N) return_from_noreturn]) /\
    (ds = [mkDiagnostic (Some 62%N) return_from_noreturn] \/ ds = []) /\
    (isNull atReturnStmt = true -> ds = []).
Proof.
  split; [exact declaredByFuncExpr_fnNoReturn|].
  apply (@return_from_noreturn_iff sampleModule fnNoReturn atReturnStmt 1
           (firstn 7 (instructions sampleModule))
           (skipn 8 (instructions sampleModule))).
  - exact declaredByFuncExpr_fnNoReturn.
  - reflexivity.
Defined.

(** C4 as first stated fails: [fnNoReturnClosure] is declared no-return and
    its return has a location, yet the pass emits nothing, because the
    function's own location is not a [FuncExpr]. *)
Lemma noreturn_closure_return_counterexample :
  declaredByFuncExpr fnNoReturnClosure /\
  declaredNoReturn fnNoReturnClosure = true /\
  isNull atReturnStmt = false /\
  instructions noReturnClosureModule =
    [] ++ (fnNoReturnClosure, ReturnInst atReturnStmt 3) :: [] /\
  emitSILDataflowDiagnostics noReturnClosureModule [] = Done tt [] /\
  ~ ReturnFromNoReturn_whatever_the_function.
Proof.
  assert (Hwf : declaredByFuncExpr fnNoReturnClosure)
    by (apply declaredByFuncExpr_no_FuncExpr; reflexivity).
  repeat (split; [first [exact Hwf | reflexivity]|]).
  intros Hclaim.
  destruct (Hclaim noReturnClosureModule fnNoReturnClosure atReturnStmt 3
              [] [] Hwf eq_refl) as (ds & Hrun & Hiff).
  assert (Hds : ds = [mkDiagnostic (getEndSourceLoc atReturnStmt)
                        return_from_noreturn])
    by (apply Hiff; split; reflexivity).
  subst ds. destruct (Hrun []) as (D1 & Dend & H1 & H2 & _).
  inversion H1; subst D1. discriminate H2.
Qed.

(** C10.  A [return_from_noreturn] is only ever added by a [Return]
    instruction of a function whose own location is a function declaration
    ([FuncExpr]).  A return in a function whose location is anything else
    adds nothing, even when that function is declared no-return and the
    return has a location. *)
Theorem return_from_noreturn_needs_FuncExpr M F I before after :
  instructions M = before ++ (F, I) :: after ->
  exists ds,
    emitsAt M before after F I ds /\
    (Exists (fun d => isReturnFromNoReturn d = true) ds ->
     (exists L v, I = ReturnInst L v) /\
     is_FuncExpr (getLocation F) = true) /\
    (is_FuncExpr (getLocation F) = false ->
     forall L v, I = ReturnInst L v -> ds = []).
Proof.
  intros Hsplit. exists (diagnosticsFor (F, I)).
  split; [now apply emitsAt_table|]. split.
  - intros Hex. apply Exists_exists in Hex as (d & Hin & Hd).
    destruct (diagnosticsFor_return_from_noreturn_inv _ _ _ Hin Hd)
      as (L & v & -> & HF).
    split; [eauto | exact HF].
  - intros HF L v ->. rewrite diagnosticsFor_return.
    destruct (returnTable_cases F L v) as [((FE & T & E & _) & _)|[_ E]];
      [|exact E].
    apply is_FuncExpr_false_getAs in HF. congruence.
Qed.

Lemma return_from_noreturn_needs_FuncExpr_witness :
  exists ds,
    emitsAt noReturnClosureModule [] []
      fnNoReturnClosure (ReturnInst atReturnStmt 3) ds /\
    (Exists (fun d => isReturnFromNoReturn d = true) ds ->
     (exists L v, ReturnInst atReturnStmt 3 = ReturnInst L v) /\
     is_FuncExpr (getLocation fnNoReturnClosure) = true) /\
    (is_FuncExpr (getLocation fnNoReturnClosure) = false ->
     forall L v, ReturnInst atReturnStmt 3 = ReturnInst L v -> ds = []).
Proof.
  apply (@return_from_noreturn_needs_FuncExpr noReturnClosureModule
           fnNoReturnClosure (ReturnInst atReturnStmt 3) [] []).
  reflexivity.
Defined.

(* ===================================================================== *)
(** ** The pass as a whole *)
(* ===================================================================== *)

Lemma traverse_permutation order order' :
  Permutation order order' ->
  Permutation (flat_map diagnosticsFor order) (flat_map diagnosticsFor order').
Proof. intros H. now rewrite H. Qed.

(** C7.  The diagnostics of the pass are a function of the module alone,
    and as a multiset they do not depend on the order of the traversal.
    There is one list [ds], fixed by the module, that the three nested loops
    add whatever the engine held before, so a second run adds the same
    diagnostics as the first.  Visiting the instructions of the module in
    any two orders, from any two engine states, finishes both times and
    adds lists that are fixed by the orders and are permutations of [ds]
    and of each other. *)
Theorem diagnostics_independent_of_order M :
  exists ds,
    (forall D0, emitSILDataflowDiagnostics M D0 = Done tt (D0 ++ ds)) /\
    forall order1 order2,
      Permutation (instructions M) order1 ->
      Permutation (instructions M) order2 ->
      exists ds1 ds2,
        (forall D1, traverse order1 D1 = Done tt (D1 ++ ds1)) /\
        (forall D2, traverse order2 D2 = Done tt (D2 ++ ds2)) /\
        Permutation ds ds1 /\ Permutation ds1 ds2.
Proof.
  exists (flat_map diagnosticsFor (instructions M)).
  split; [apply emitSILDataflowDiagnostics_emits|].
  intros order1 order2 H1 H2.
  exists (flat_map diagnosticsFor order1), (flat_map diagnosticsFor order2).
  split; [apply traverse_emits|]. split; [apply traverse_emits|]. split.
  - now apply traverse_permutation.
  - apply traverse_permutation. now rewrite <- H1.
Qed.

Lemma diagnostics_independent_of_order_witness :
  Permutation (instructions sampleModule) (instructions sampleModule) /\
  Permutation (instructions sampleModule) reversedOrder /\
  exists ds ds1 ds2,
    (forall D0, emitSILDataflowDiagnostics sampleModule D0 = Done tt (D0 ++ ds)) /\
    (forall D1, traverse (instructions sampleModule) D1 = Done tt (D1 ++ ds1)) /\
    (forall D2, traverse reversedOrder D2 = Done tt (D2 ++ ds2)) /\
    Permutation ds ds1 /\ Permutation ds1 ds2.
Proof.
  split; [apply Permutation_refl|]. split; [apply Permutation_rev|].
  destruct (diagnostics_independent_of_order sampleModule) as (ds & Hrun & Horder).
  destruct (Horder (instructions sampleModule) reversedOrder
              (Permutation_refl _) (Permutation_rev _))
    as (ds1 & ds2 & Hone & Htwo & Hperm & Hperm').
  exists ds, ds1, ds2. repeat split; assumption.
Defined.

(** C8.  The pass always runs to its end: the [assert] of
    [diagnoseMissingReturn] never stops it.  Every [missing_return] it adds
    comes from an [Unreachable] terminator with a non-null location, is
    anchored at the end of that location, and carries a non-null type that
    is not void: the result type of the [FuncExpr] of the terminator's
    function. *)
Theorem missing_return_well_formed M D0 :
  emitSILDataflowDiagnostics M D0 <> AssertionFailed /\
  exists ds,
    emitSILDataflowDiagnostics M D0 = Done tt (D0 ++ ds) /\
    forall d, In d ds -> isMissingReturn d = true ->
      exists F L FExpr,
        In (F, UnreachableInst L) (instructions M) /\
        isNull L = false /\
        getAs_FuncExpr (getLocation F) = Some FExpr /\
        isVoid (getResultType FExpr) = false /\
        d = mkDiagnostic (getEndSourceLoc L)
              (missing_return (Some (getResultType FExpr))).
Proof.
  pose proof (emitSILDataflowDiagnostics_emits M D0) as Hrun.
  split; [rewrite Hrun; discriminate|].
  exists (flat_map diagnosticsFor (instructions M)).
  split; [exact Hrun|].
  intros d Hin Hd. apply in_flat_map in Hin as ([F I] & Hvisit & Hin).
  destruct (diagnosticsFor_missing_return_inv _ _ _ Hin Hd)
    as (L & -> & HL & Hin').
  destruct (missingReturnTable_inv _ _ _ Hin') as (FExpr & HF & Hv & ->).
  exists F, L, FExpr. repeat split; auto.
  destruct L as [n|]; [reflexivity | discriminate].
Qed.

(* ===================================================================== *)
(** ** The assert of [diagnoseMissingReturn] *)
(* ===================================================================== *)

Import EdgeSamples.

(** Called directly, [diagnoseMissingReturn] stops at its [assert] exactly
    when the function passes all its tests (a [FuncExpr] location, a
    non-void result type, not no-return) and the instruction has a null
    location; for an exempt function a null location is harmless. *)
Theorem diagnoseMissingReturn_assert_fires F UI D :
  diagnoseMissingReturn F UI D = AssertionFailed <->
  missingReturnApplies F = true /\ isNull (getLoc UI) = true.
Proof.
  unfold diagnoseMissingReturn, missingReturnApplies.
  destruct (getAs_FuncExpr (getLocation F)) as [FExpr|];
    [|split; [discriminate | intros [? _]; discriminate]].
  destruct (isVoid (getResultType FExpr));
    [split; [discriminate | intros [? _]; discriminate]|].
  destruct (match castTo_AnyFunctionType (getType FExpr) with
            | Some T => isNoReturn T
            | None => false
            end);
    [split; [discriminate | intros [? _]; discriminate]|].
  unfold bind, assert. destruct (isNull (getLoc UI)); simpl.
  - split; auto.
  - split; [discriminate | intros [_ ?]; discriminate].
Qed.

(* ===================================================================== *)
(** ** What the engine receives *)
(* ===================================================================== *)

Lemma diagnosticsFor_location F F' I :
  getLocation F = getLocation F' ->
  diagnosticsFor (F, I) = diagnosticsFor (F', I).
Proof.
  intros E. unfold diagnosticsFor, unreachableTable, returnTable,
    missingReturnTable. simpl fst. simpl snd. now rewrite E.
Qed.

Lemma diagnosticsFor_length v :
  List.length (diagnosticsFor v) <= if mayDiagnose v then 1 else 0.
Proof.
  destruct v as [F I]. unfold mayDiagnose. simpl snd.
  destruct I as [L|L w|L].
  - rewrite diagnosticsFor_unreachable.
    destruct L as [[FE|SS|e]|]; simpl; auto.
    unfold missingReturnTable.
    destruct (getAs_FuncExpr (getLocation F)) as [FExpr|]; simpl; auto.
    destruct (isVoid (getResultType FExpr)); simpl; auto.
    destruct (castTo_AnyFunctionType (getType FExpr)) as [T|]; simpl; auto.
    destruct (isNoReturn T); simpl; auto.
  - rewrite diagnosticsFor_return.
    destruct (returnTable_cases F L w) as [(_ & HL & ->)|(_ & ->)].
    + rewrite HL. simpl. auto.
    + simpl. lia.
  - rewrite diagnosticsFor_other. simpl. lia.
Qed.

Lemma flat_map_length_filter order :
  List.length (flat_map diagnosticsFor order) <= List.length (filter mayDiagnose order).
Proof.
  induction order as [|v order IH]; simpl; [lia|].
  rewrite length_app. pose proof (diagnosticsFor_length v) as Hv.
  destruct (mayDiagnose v); simpl; lia.
Qed.

(** The pass calls [diagnose] at most once for an instruction, and only for
    an [Unreachable] or a [Return] that has a location: a run adds no more
    diagnostics than the module has such instructions. *)
Theorem diagnostics_count_bound M D0 :
  exists ds,
    emitSILDataflowDiagnostics M D0 = Done tt (D0 ++ ds) /\
    List.length ds <= List.length (filter mayDiagnose (instructions M)).
Proof.
  exists (flat_map diagnosticsFor (instructions M)).
  split; [apply emitSILDataflowDiagnostics_emits | apply flat_map_length_filter].
Qed.

Lemma filter_none {A} (p : A -> bool) xs :
  (forall x, In x xs -> p x = false) -> filter p xs = [].
Proof.
  induction xs as [|x xs IH]; intros Hp; simpl; [reflexivity|].
  rewrite (Hp x (or_introl eq_refl)). apply IH.
  intros x' Hin. apply Hp. now right.
Qed.

(** A module in which every [Unreachable] and every [Return] is synthetic
    (null location) leaves the engine as it found it; the module without
    functions and the function without blocks are the simplest cases. *)
Theorem synthetic_module_silent M D0 :
  (forall v, In v (instructions M) -> mayDiagnose v = false) ->
  emitSILDataflowDiagnostics M D0 = Done tt D0.
Proof.
  intros Hquiet. rewrite emitSILDataflowDiagnostics_emits.
  pose proof (flat_map_length_filter (instructions M)) as Hlen.
  rewrite (filter_none _ _ Hquiet) in Hlen.
  destruct (flat_map diagnosticsFor (instructions M)); simpl in Hlen; [|lia].
  now rewrite app_nil_r.
Qed.

Lemma synthetic_module_silent_witness :
  (forall v, In v (instructions quietModule) -> mayDiagnose v = false) /\
  emitSILDataflowDiagnostics quietModule [] = Done tt [] /\
  emitSILDataflowDiagnostics (mkSILModule []) [] = Done tt [].
Proof.
  assert (Hquiet : forall v, In v (instructions quietModule) ->
                             mayDiagnose v = false).
  { intros v Hin. simpl in Hin.
    repeat (destruct Hin as [<-|Hin]; [reflexivity|]). destruct Hin. }
  split; [exact Hquiet|]. split.
  - apply (@synthetic_module_silent quietModule []). exact Hquiet.
  - apply (@synthetic_module_silent (mkSILModule []) []). intros v [].
Defined.

(** The pass only appends: what the engine held before the run is kept in
    front, and what the run adds does not depend on it. *)
Theorem engine_only_appended M :
  exists ds, forall D0, emitSILDataflowDiagnostics M D0 = Done tt (D0 ++ ds).
Proof.
  exists (flat_map diagnosticsFor (instructions M)).
  apply emitSILDataflowDiagnostics_emits.
Qed.

(** The pass keeps no record of what it has reported: run twice over the
    same module it adds every diagnostic twice, in the same order. *)
Theorem pass_run_twice M D0 :
  exists ds,
    emitSILDataflowDiagnostics M D0 = Done tt (D0 ++ ds) /\
    (emitSILDataflowDiagnostics M ;; emitSILDataflowDiagnostics M) D0 =
    Done tt (D0 ++ ds ++ ds).
Proof.
  exists (flat_map diagnosticsFor (instructions M)).
  split; [apply emitSILDataflowDiagnostics_emits|].
  apply (emits_seq (emitSILDataflowDiagnostics_emits M)
                   (emitSILDataflowDiagnostics_emits M)).
Qed.

(** Functions are diagnosed one after the other and independently: the
    diagnostics of a module are those of its first functions followed by
    those of the remaining ones, each as if they were a module alone. *)
Theorem functions_diagnosed_independently Fs1 Fs2 D0 :
  exists ds1 ds2,
    (forall D, emitSILDataflowDiagnostics (mkSILModule Fs1) D = Done tt (D ++ ds1)) /\
    (forall D, emitSILDataflowDiagnostics (mkSILModule Fs2) D = Done tt (D ++ ds2)) /\
    emitSILDataflowDiagnostics (mkSILModule (Fs1 ++ Fs2)) D0 =
    Done tt (D0 ++ ds1 ++ ds2).
Proof.
  exists (flat_map diagnosticsFor (instructions (mkSILModule Fs1))),
         (flat_map diagnosticsFor (instructions (mkSILModule Fs2))).
  split; [apply emitSILDataflowDiagnostics_emits|].
  split; [apply emitSILDataflowDiagnostics_emits|].
  rewrite emitSILDataflowDiagnostics_emits. unfold instructions. simpl.
  now rewrite !flat_map_app.
Qed.

Lemma instructionsOf_concat F :
  instructionsOf F = map (pair F) (List.concat (getBlocks F)).
Proof.
  unfold instructionsOf. induction (getBlocks F) as [|BB Bs IH]; simpl.
  - reflexivity.
  - now rewrite map_app, IH.
Qed.

Lemma diagnosticsFor_sameBody F F' :
  sameBody F F' ->
  flat_map diagnosticsFor (instructionsOf F) =
  flat_map diagnosticsFor (instructionsOf F').
Proof.
  intros [Hloc Hbody]. rewrite !instructionsOf_concat, <- Hbody. clear Hbody.
  induction (List.concat (getBlocks F)) as [|I Is IH]; simpl.
  - reflexivity.
  - now rewrite IH, (@diagnosticsFor_location F F' I Hloc).
Qed.

(** The pass sees of a function only its location and its instructions in
    order: where the blocks begin and end, and what else the function
    carries, changes nothing in what the engine receives. *)
Theorem block_boundaries_irrelevant M M' D0 :
  Forall2 sameBody (getFunctions M) (getFunctions M') ->
  emitSILDataflowDiagnostics M D0 = emitSILDataflowDiagnostics M' D0.
Proof.
  intros Hsame. rewrite !emitSILDataflowDiagnostics_emits.
  do 2 f_equal. unfold instructions.
  induction Hsame as [|F F' Fs Fs' HF _ IH]; simpl; [reflexivity|].
  now rewrite !flat_map_app, IH, (@diagnosticsFor_sameBody F F' HF).
Qed.

Lemma block_boundaries_irrelevant_witness :
  Forall2 sameBody [fnInt; fnVoid] [fnIntMerged; fnVoid] /\
  emitSILDataflowDiagnostics (mkSILModule [fnInt; fnVoid]) [] =
  emitSILDataflowDiagnostics (mkSILModule [fnIntMerged; fnVoid]) [].
Proof.
  assert (Hsame : Forall2 sameBody [fnInt; fnVoid] [fnIntMerged; fnVoid])
    by (repeat constructor).
  split; [exact Hsame|].
  apply (@block_boundaries_irrelevant (mkSILModule [fnInt; fnVoid])
           (mkSILModule [fnIntMerged; fnVoid]) []).
  exact Hsame.
Defined.

(* ===================================================================== *)
(** ** Where a diagnostic comes from *)
(* ===================================================================== *)

Lemma diagnosticsFor_anchor F I d :
  In d (diagnosticsFor (F, I)) ->
  exists n, getLoc I = Some n /\ diagLoc d = getEndLoc n /\
    match I, diagID d with
    | UnreachableInst (Some (FuncExprNode _)), missing_return _ => True
    | UnreachableInst (Some (SwitchStmtNode _)), non_exhaustive_switch => True
    | ReturnInst _ _, return_from_noreturn => True
    | _, _ => False
    end.
Proof.
  destruct I as [L|L w|L].
  - rewrite diagnosticsFor_unreachable.
    destruct L as [[FE|SS|e]|]; simpl.
    + intros Hin. apply missingReturnTable_inv in Hin as (FExpr & _ & _ & ->).
      exists (FuncExprNode FE). simpl. auto.
    + intros [<-|[]]. exists (SwitchStmtNode SS). simpl. auto.
    + intros [].
    + intros [].
  - rewrite diagnosticsFor_return.
    destruct (returnTable_cases F L w) as [(_ & HL & ->)|(_ & ->)];
      [|intros []].
    intros [<-|[]]. destruct L as [n|]; [|discriminate].
    exists n. simpl. auto.
  - rewrite diagnosticsFor_other. intros [].
Qed.

(** Every diagnostic of a run is anchored at the end of the location of an
    instruction of the module, and that location is not null; a
    [missing_return] comes from an [Unreachable] located at a [FuncExpr], a
    [non_exhaustive_switch] from an [Unreachable] located at a
    [SwitchStmt], a [return_from_noreturn] from a [Return]. *)
Theorem diagnostics_anchored_at_instructions M D0 :
  exists ds,
    emitSILDataflowDiagnostics M D0 = Done tt (D0 ++ ds) /\
    forall d, In d ds ->
      exists F I n,
        In (F, I) (instructions M) /\
        getLoc I = Some n /\
        diagLoc d = getEndLoc n /\
        match I, diagID d with
        | UnreachableInst (Some (FuncExprNode _)), missing_return _ => True
        | UnreachableInst (Some (SwitchStmtNode _)), non_exhaustive_switch => True
        | ReturnInst _ _, return_from_noreturn => True
        | _, _ => False
        end.
Proof.
  exists (flat_map diagnosticsFor (instructions M)).
  split; [apply emitSILDataflowDiagnostics_emits|].
  intros d Hin. apply in_flat_map in Hin as ([F I] & Hvisit & Hin).
  destruct (diagnosticsFor_anchor _ _ _ Hin) as (n & Hn & Hloc & Hkind).
  exists F, I, n. auto.
Qed.

(** For a terminator located at a [FuncExpr], the pass reads of that
    [FuncExpr] only the end of its source range: the result type and the
    function type it tests are those of the [FuncExpr] of the enclosing
    function.  Two such terminators with the same end are treated alike,
    whatever the two [FuncExpr] declare. *)
Theorem terminator_FuncExpr_types_not_read F FE FE' D :
  funcEnd FE = funcEnd FE' ->
  visitInstruction F (UnreachableInst (Some (FuncExprNode FE))) D =
  visitInstruction F (UnreachableInst (Some (FuncExprNode FE'))) D.
Proof.
  intros Hend.
  pose proof (visitInstruction_emits
                (F, UnreachableInst (Some (FuncExprNode FE))) D) as H.
  pose proof (visitInstruction_emits
                (F, UnreachableInst (Some (FuncExprNode FE'))) D) as H'.
  simpl fst in H, H'. simpl snd in H, H'. rewrite H, H'.
  rewrite !diagnosticsFor_unreachable. simpl unreachableTable.
  unfold missingReturnTable. simpl getEndSourceLoc. now rewrite Hend.
Qed.

Lemma terminator_FuncExpr_types_not_read_witness :
  funcEnd intFunc = funcEnd localVoidFunc /\
  visitInstruction fnInt (UnreachableInst (Some (FuncExprNode intFunc))) [] =
  visitInstruction fnInt (UnreachableInst (Some (FuncExprNode localVoidFunc))) [] /\
  visitInstruction fnInt (UnreachableInst (Some (FuncExprNode localVoidFunc))) [] =
  Done tt [mkDiagnostic (Some 40%N) (missing_return (Some Int))].
Proof.
  split; [reflexivity|]. split; [|reflexivity].
  apply (@terminator_FuncExpr_types_not_read fnInt intFunc localVoidFunc []).
  reflexivity.
Defined.

(* ===================================================================== *)
(** ** How many diagnostics of each kind *)
(* ===================================================================== *)

Lemma count_flat_map (p : Diagnostic -> bool) (q : Visit -> bool) order :
  (forall v, List.length (filter p (diagnosticsFor v)) = if q v then 1 else 0) ->
  List.length (filter p (flat_map diagnosticsFor order)) =
  List.length (filter q order).
Proof.
  intros Hone. induction order as [|v order IH]; simpl; [reflexivity|].
  rewrite filter_app, length_app, IH, Hone. now destruct (q v).
Qed.

Lemma missingReturnTable_applies F L :
  missingReturnTable F L =
  if missingReturnApplies F
  then [mkDiagnostic (getEndSourceLoc L)
          (missing_return
             (option_map getResultType (getAs_FuncExpr (getLocation F))))]
  else [].
Proof.
  unfold missingReturnTable, missingReturnApplies.
  destruct (getAs_FuncExpr (getLocation F)) as [FExpr|]; [|reflexivity].
  destruct (isVoid (getResultType FExpr)); [reflexivity|].
  destruct (castTo_AnyFunctionType (getType FExpr)) as [T|]; [|reflexivity].
  now destruct (isNoReturn T).
Qed.

Lemma returnTable_located F L w :
  returnTable F (ReturnInst L w) =
  if negb (isNull L) && isNoReturnFuncExpr F
  then [mkDiagnostic (getEndSourceLoc L) return_from_noreturn]
  else [].
Proof.
  unfold returnTable, isNoReturnFuncExpr.
  destruct L as [n|]; simpl;
    destruct (getAs_FuncExpr (getLocation F)) as [FExpr|]; try reflexivity.
  destruct (castTo_AnyFunctionType (getType FExpr)) as [T|]; [|reflexivity].
  now destruct (isNoReturn T).
Qed.

(** A run adds exactly as many [non_exhaustive_switch] diagnostics as the
    module has [Unreachable] terminators located at a [SwitchStmt]. *)
Theorem non_exhaustive_switch_count M D0 :
  exists ds,
    emitSILDataflowDiagnostics M D0 = Done tt (D0 ++ ds) /\
    List.length (filter isNonExhaustiveSwitch ds) =
    List.length (filter isSwitchUnreachable (instructions M)).
Proof.
  exists (flat_map diagnosticsFor (instructions M)).
  split; [apply emitSILDataflowDiagnostics_emits|].
  apply count_flat_map. intros [F I]. unfold isSwitchUnreachable. simpl snd.
  destruct I as [L|L w|L].
  - rewrite diagnosticsFor_unreachable.
    destruct L as [[FE|SS|e]|]; simpl; try reflexivity.
    rewrite missingReturnTable_applies.
    now destruct (missingReturnApplies F).
  - rewrite diagnosticsFor_return, returnTable_located.
    now destruct (negb (isNull L) && isNoReturnFuncExpr F).
  - now rewrite diagnosticsFor_other.
Qed.

(** A run adds exactly as many [missing_return] diagnostics as there are
    [Unreachable] terminators located at a [FuncExpr] in functions that
    pass the three tests of [diagnoseMissingReturn]. *)
Theorem missing_return_count M D0 :
  exists ds,
    emitSILDataflowDiagnostics M D0 = Done tt (D0 ++ ds) /\
    List.length (filter isMissingReturn ds) =
    List.length (filter isFuncExprUnreachable (instructions M)).
Proof.
  exists (flat_map diagnosticsFor (instructions M)).
  split; [apply emitSILDataflowDiagnostics_emits|].
  apply count_flat_map. intros [F I]. unfold isFuncExprUnreachable.
  simpl snd. simpl fst.
  destruct I as [L|L w|L].
  - rewrite diagnosticsFor_unreachable.
    destruct L as [[FE|SS|e]|]; simpl; try reflexivity.
    rewrite missingReturnTable_applies.
    now destruct (missingReturnApplies F).
  - rewrite diagnosticsFor_return, returnTable_located.
    now destruct (negb (isNull L) && isNoReturnFuncExpr F).
  - now rewrite diagnosticsFor_other.
Qed.

(** A run adds exactly as many [return_from_noreturn] diagnostics as there
    are [Return] instructions with a location in functions whose own
    location is a [FuncExpr] of no-return type. *)
Theorem return_from_noreturn_count M D0 :
  exists ds,
    emitSILDataflowDiagnostics M D0 = Done tt (D0 ++ ds) /\
    List.length (filter isReturnFromNoReturn ds) =
    List.length (filter isLocatedNoReturnReturn (instructions M)).
Proof.
  exists (flat_map diagnosticsFor (instructions M)).
  split; [apply emitSILDataflowDiagnostics_emits|].
  apply count_flat_map. intros [F I]. unfold isLocatedNoReturnReturn.
  simpl snd. simpl fst.
  destruct I as [L|L w|L].
  - rewrite diagnosticsFor_unreachable.
    destruct L as [[FE|SS|e]|]; simpl; try reflexivity.
    rewrite missingReturnTable_applies.
    now destruct (missingReturnApplies F).
  - rewrite diagnosticsFor_return, returnTable_located.
    now destruct (negb (isNull L) && isNoReturnFuncExpr F).
  - now rewrite diagnosticsFor_other.
Qed.

(* ===================================================================== *)
(** ** [diagnoseMissingReturn] on its own *)
(* ===================================================================== *)

(** [diagnoseMissingReturn] leaves the test of the instruction's location
    to its caller: for a function that passes its three tests it reports a
    missing return at the end of whatever non-null location the instruction
    has, a [SwitchStmt] included, with the result type of the function's
    [FuncExpr]. *)
Theorem diagnoseMissingReturn_any_location F FExpr UI D :
  getAs_FuncExpr (getLocation F) = Some FExpr ->
  missingReturnApplies F = true ->
  isNull (getLoc UI) = false ->
  diagnoseMissingReturn F UI D =
  Done tt (D ++ [mkDiagnostic (getEndSourceLoc (getLoc UI))
                   (missing_return (Some (getResultType FExpr)))]).
Proof.
  intros HF Happ HL.
  rewrite (diagnoseMissingReturn_emits F UI HL), missingReturnTable_applies.
  now rewrite Happ, HF.
Qed.

Lemma diagnoseMissingReturn_any_location_witness :
  getAs_FuncExpr (getLocation fnInt) = Some intFunc /\
  missingReturnApplies fnInt = true /\
  isNull (getLoc (UnreachableInst atSwitch)) = false /\
  diagnoseMissingReturn fnInt (UnreachableInst atSwitch) [] =
  Done tt [mkDiagnostic (Some 33%N) (missing_return (Some Int))].
Proof.
  repeat (split; [reflexivity|]).
  apply (@diagnoseMissingReturn_any_location fnInt intFunc
           (UnreachableInst atSwitch) []); reflexivity.
Defined.
